(** * The task synchroniser of react-todo-supabase

    A shallow embedding of [src/components/TodoList.tsx] (the component that
    owns the task list and talks to the remote store) and of the two callers
    of its operations, [TodoForm.tsx] and [TodoItem.tsx].

    - JavaScript strings are sequences of UTF-16 code units.
    - The component's [useState] cells, the toasts it raises and the remote
      calls it issues are one explicit state, threaded by a small
      state-and-exception monad that has [try]/[catch]/[finally].
    - Each [await] receives the remote store's answer as an argument of the
      handler (the store is outside the repository).
    - A handler reads [todos] from the closure of the render that created it;
      the embedding makes that captured list an explicit parameter. *)

From Stdlib Require Import List NArith ZArith Bool String Ascii Lia Sorted.
Import ListNotations.

Set Implicit Arguments.

(** ** JavaScript strings *)

(** A string is its list of UTF-16 code units. *)
Definition jsstring : Type := list N.

(** An ASCII literal of the source, as code units. *)
Definition js (s : string) : jsstring :=
  map N_of_ascii (list_ascii_of_string s).

(** [a === b] on strings. *)
Fixpoint strict_eq (a b : jsstring) : bool :=
  match a, b with
  | [], [] => true
  | x :: a', y :: b' => N.eqb x y && strict_eq a' b'
  | _, _ => false
  end.

(** Truthiness of a string: only the empty string is falsy. *)
Definition truthy (s : jsstring) : bool :=
  match s with
  | [] => false
  | _ :: _ => true
  end.

(** [s || null]. *)
Definition or_null (s : jsstring) : option jsstring :=
  if truthy s then Some s else None.

(** [s || ''] for a nullable string. *)
Definition or_empty (s : option jsstring) : jsstring :=
  match s with
  | Some x => if truthy x then x else []
  | None => []
  end.

(** The code units [String.prototype.trim] strips: ECMAScript's WhiteSpace
    (TAB, VT, FF, ZWNBSP and the Unicode space separators) and
    LineTerminator (LF, CR, LS, PS). All of them are single code units. *)
Definition is_space (c : N) : bool :=
  ((c =? 9) || (c =? 10) || (c =? 11) || (c =? 12) || (c =? 13) || (c =? 32)
   || (c =? 160) || (c =? 5760) || ((8192 <=? c) && (c <=? 8202))
   || (c =? 8232) || (c =? 8233) || (c =? 8239) || (c =? 8287)
   || (c =? 12288) || (c =? 65279))%N.

Fixpoint trimStart (s : jsstring) : jsstring :=
  match s with
  | [] => []
  | c :: s' => if is_space c then trimStart s' else s
  end.

Definition trimEnd (s : jsstring) : jsstring := rev (trimStart (rev s)).

Definition trim (s : jsstring) : jsstring := trimEnd (trimStart s).

(** ** Data *)

(** [interface Todo]. [description : string | null] is an option: [None] is
    [null], [Some []] is the empty string. *)
Module Todo.
Record t : Type := mk {
  id : jsstring;
  title : jsstring;
  description : option jsstring;
  completed : bool;
  created_at : jsstring
}.
End Todo.

(** The value of [useAuth().user] when it is not [null]. *)
Record User : Type := { user_id : jsstring }.

(** The argument of [toast]. An omitted [variant] is [None]. *)
Inductive Variant : Type := destructive.

Module Toast.
Record t : Type := mk {
  title : jsstring;
  description : jsstring;
  variant : option Variant
}.
End Toast.

(** A thrown value; the handlers read only its [message]. *)
Record Thrown : Type := { message : jsstring }.

(** What the query builder resolves to: [{ data, error: null }] or
    [{ data: null, error }]. *)
Inductive PostgrestResponse (A : Type) : Type :=
| success (data : A)
| failure (error : Thrown).
Arguments success {A} data.
Arguments failure {A} error.

(** The remote calls of [TodoList.tsx], all on the table ['todos']. *)
Inductive Request : Type :=
| select_ordered (column : jsstring) (ascending : bool)
    (* .select('*').order(column, { ascending }) *)
| insert_todo (user_id title : jsstring) (description : option jsstring)
    (* .insert([{ user_id, title, description }]).select().single() *)
| update_completed (id : jsstring) (completed : bool) (updated_at : jsstring)
    (* .update({ completed, updated_at }).eq('id', id) *)
| delete_todo (id : jsstring)
    (* .delete().eq('id', id) *)
| update_text (id title : jsstring) (description : option jsstring)
    (updated_at : jsstring).
    (* .update({ title, description, updated_at }).eq('id', id) *)

(** The one select of [TodoList.tsx]:
    [.select('*').order('created_at', { ascending: false })]. *)
Definition select_todos : Request := select_ordered (js "created_at") false.

(** ** The component's state and its effects *)

(** [todos] and [loading] are the two [useState] cells of [TodoList];
    [toasts] are the notifications raised and [requests] the remote calls
    issued so far, oldest first. *)
Record State : Type := {
  todos : list Todo.t;
  loading : bool;
  toasts : list Toast.t;
  requests : list Request
}.

(** [useState<Todo[]>([])], [useState(true)]. *)
Definition initial : State :=
  {| todos := []; loading := true; toasts := []; requests := [] |}.

Inductive Completion (A : Type) : Type :=
| normal (a : A)
| throws (e : Thrown).
Arguments normal {A} a.
Arguments throws {A} e.

Definition M (A : Type) : Type := State -> Completion A * State.

Definition ret {A} (a : A) : M A := fun s => (normal a, s).

Definition bind {A B} (m : M A) (k : A -> M B) : M B :=
  fun s =>
    match m s with
    | (normal a, s') => k a s'
    | (throws e, s') => (throws e, s')
    end.

Definition throw {A} (e : Thrown) : M A := fun s => (throws e, s).

(** [try { body } catch (error) { handler }] *)
Definition try_catch {A} (body : M A) (handler : Thrown -> M A) : M A :=
  fun s =>
    match body s with
    | (normal a, s') => (normal a, s')
    | (throws e, s') => handler e s'
    end.

(** [try { body } finally { final }] *)
Definition try_finally {A} (body : M A) (final : M unit) : M A :=
  fun s =>
    match body s with
    | (r, s') =>
        match final s' with
        | (normal _, s'') => (r, s'')
        | (throws e, s'') => (throws e, s'')
        end
    end.

Declare Scope js_scope.
Delimit Scope js_scope with js.
Notation "x <- m ;; k" := (bind m (fun x => k))
  (at level 61, m at next level, right associativity) : js_scope.
Notation "m ;; k" := (bind m (fun _ => k))
  (at level 61, right associativity) : js_scope.
Open Scope js_scope.

Definition setTodos (l : list Todo.t) : M unit :=
  fun s => (normal tt, {| todos := l; loading := loading s;
                          toasts := toasts s; requests := requests s |}).

Definition setLoading (b : bool) : M unit :=
  fun s => (normal tt, {| todos := todos s; loading := b;
                          toasts := toasts s; requests := requests s |}).

Definition toast (t : Toast.t) : M unit :=
  fun s => (normal tt, {| todos := todos s; loading := loading s;
                          toasts := toasts s ++ [t]; requests := requests s |}).

(** [await supabase.from('todos')...]: the call is issued and the store's
    answer [reply] comes back. *)
Definition await {A} (req : Request) (reply : PostgrestResponse A)
  : M (PostgrestResponse A) :=
  fun s => (normal reply, {| todos := todos s; loading := loading s;
                             toasts := toasts s;
                             requests := requests s ++ [req] |}).

(** [user!.id]: reading [id] of [null] throws a TypeError (the text is V8's). *)
Definition user_bang_id (user : option User) : M jsstring :=
  match user with
  | Some u => ret (user_id u)
  | None => throw {| message := js "Cannot read properties of null (reading 'id')" |}
  end.

(** ** The handlers of [TodoList.tsx]

    [user] and [todos] are the values the handler's closure captured at the
    render that created it. [reply] is what the awaited call resolves to and
    [now] is [new Date().toISOString()]. *)

Definition fetchTodos (reply : PostgrestResponse (option (list Todo.t)))
  : M unit :=
  try_finally
    (try_catch
       (r <- await select_todos reply ;;
        match r with
        | failure error => throw error
        | success data =>
            (* data || [] *)
            setTodos (match data with Some rows => rows | None => [] end)
        end)
       (fun error =>
          toast {| Toast.title := js "Erro ao carregar tarefas";
                   Toast.description := message error;
                   Toast.variant := Some destructive |}))
    (setLoading false).

(** [useEffect(() => { if (user) { fetchTodos(); } }, [user])] *)
Definition useEffect_user (user : option User)
  (reply : PostgrestResponse (option (list Todo.t))) : M unit :=
  match user with
  | Some _ => fetchTodos reply
  | None => ret tt
  end.

Definition addTodo (user : option User) (todos : list Todo.t)
  (title description : jsstring) (reply : PostgrestResponse Todo.t) : M unit :=
  try_catch
    (uid <- user_bang_id user ;;
     r <- await (insert_todo uid title (or_null description)) reply ;;
     match r with
     | failure error => throw error
     | success data =>
         setTodos (data :: todos) ;;
         toast {| Toast.title := js "Tarefa adicionada!";
                  Toast.description := js "Sua nova tarefa foi criada com sucesso.";
                  Toast.variant := None |}
     end)
    (fun error =>
       toast {| Toast.title := js "Erro ao adicionar tarefa";
                Toast.description := message error;
                Toast.variant := Some destructive |}).

(** ['Tarefa concluída!'] and ['Parabéns por concluir a tarefa!']. *)
Definition concluida_title : jsstring :=
  js "Tarefa conclu" ++ [237%N] ++ js "da!".
Definition concluida_description : jsstring :=
  js "Parab" ++ [233%N] ++ js "ns por concluir a tarefa!".

Definition toggleTodo (todos : list Todo.t) (id : jsstring) (completed : bool)
  (now : jsstring) (reply : PostgrestResponse unit) : M unit :=
  try_catch
    (r <- await (update_completed id completed now) reply ;;
     match r with
     | failure error => throw error
     | success _ =>
         setTodos
           (map (fun todo =>
                   if strict_eq (Todo.id todo) id
                   then (* { ...todo, completed } *)
                     Todo.mk (Todo.id todo) (Todo.title todo)
                       (Todo.description todo) completed (Todo.created_at todo)
                   else todo)
              todos) ;;
         toast {| Toast.title :=
                    if completed then concluida_title else js "Tarefa reaberta";
                  Toast.description :=
                    if completed then concluida_description
                    else js "Tarefa marcada como pendente.";
                  Toast.variant := None |}
     end)
    (fun error =>
       toast {| Toast.title := js "Erro ao atualizar tarefa";
                Toast.description := message error;
                Toast.variant := Some destructive |}).

Definition deleteTodo (todos : list Todo.t) (id : jsstring)
  (reply : PostgrestResponse unit) : M unit :=
  try_catch
    (r <- await (delete_todo id) reply ;;
     match r with
     | failure error => throw error
     | success _ =>
         setTodos (filter (fun todo => negb (strict_eq (Todo.id todo) id)) todos) ;;
         toast {| Toast.title := js "Tarefa removida";
                  Toast.description := js "A tarefa foi removida com sucesso.";
                  Toast.variant := None |}
     end)
    (fun error =>
       toast {| Toast.title := js "Erro ao remover tarefa";
                Toast.description := message error;
                Toast.variant := Some destructive |}).

(** ['As alterações foram salvas com sucesso.'] *)
Definition alteracoes_description : jsstring :=
  js "As altera" ++ [231%N; 245%N] ++ js "es foram salvas com sucesso.".

Definition updateTodo (todos : list Todo.t) (id title description : jsstring)
  (now : jsstring) (reply : PostgrestResponse unit) : M unit :=
  try_catch
    (r <- await (update_text id title (or_null description) now) reply ;;
     match r with
     | failure error => throw error
     | success _ =>
         setTodos
           (map (fun todo =>
                   if strict_eq (Todo.id todo) id
                   then (* { ...todo, title, description } *)
                     Todo.mk (Todo.id todo) title (Some description)
                       (Todo.completed todo) (Todo.created_at todo)
                   else todo)
              todos) ;;
         toast {| Toast.title := js "Tarefa atualizada!";
                  Toast.description := alteracoes_description;
                  Toast.variant := None |}
     end)
    (fun error =>
       toast {| Toast.title := js "Erro ao atualizar tarefa";
                Toast.description := message error;
                Toast.variant := Some destructive |}).

(** ** Running the component *)

(** One invocation of a handler, with what its awaited call resolves to. *)
Inductive Call : Type :=
| fetch (reply : PostgrestResponse (option (list Todo.t)))
| add (title description : jsstring) (reply : PostgrestResponse Todo.t)
| toggle (id : jsstring) (completed : bool) (now : jsstring)
    (reply : PostgrestResponse unit)
| delete (id : jsstring) (reply : PostgrestResponse unit)
| update (id title description : jsstring) (now : jsstring)
    (reply : PostgrestResponse unit).

(** The handler a call runs, created by a render whose [todos] was
    [captured]. *)
Definition handler (user : option User) (captured : list Todo.t) (c : Call)
  : M unit :=
  match c with
  | fetch reply => useEffect_user user reply
  | add title description reply => addTodo user captured title description reply
  | toggle id completed now reply => toggleTodo captured id completed now reply
  | delete id reply => deleteTodo captured id reply
  | update id title description now reply =>
      updateTodo captured id title description now reply
  end.

(** A call that is issued and settles before anything else happens: the
    closure holds the current list. *)
Definition perform (user : option User) (s : State) (c : Call) : State :=
  snd (handler user (todos s) c s).

Definition perform_all (user : option User) (s : State) (cs : list Call)
  : State :=
  fold_left (perform user) cs s.

(** The requests a call sends when its handler is invoked: what the handler
    logs, started on an empty log. The request is built before the reply is
    looked at. *)
Definition issued (user : option User) (captured : list Todo.t) (c : Call)
  : list Request :=
  requests (snd (handler user captured c initial)).

Definition with_requests (s : State) (rs : list Request) : State :=
  {| todos := todos s; loading := loading s; toasts := toasts s;
     requests := rs |}.

(** Calls whose awaits overlap. [issue] invokes the handler of the current
    render, which captures the current [todos]. A handler that ends without
    reaching its [await] (a load or a create without a user) runs to its end
    at once. Any other handler sends its request and is left suspended at
    its [await]; [settle n] resumes the [n]-th suspended handler with its
    reply. No handler writes to the component's state before its [await],
    so what a resumed handler does to [todos], [loading] and [toasts] is
    what the whole handler does; its request was logged at [issue]. *)
Record InFlight : Type := { captured_todos : list Todo.t; call : Call }.

Inductive Event : Type :=
| issue (c : Call)
| settle (n : nat).

Fixpoint remove_nth {A} (n : nat) (l : list A) : list A :=
  match n, l with
  | _, [] => []
  | O, _ :: l' => l'
  | S n', x :: l' => x :: remove_nth n' l'
  end.

Definition step (user : option User) (m : State * list InFlight) (e : Event)
  : State * list InFlight :=
  match e with
  | issue c =>
      match issued user (todos (fst m)) c with
      | [] => (snd (handler user (todos (fst m)) c (fst m)), snd m)
      | (_ :: _) as rs =>
          (with_requests (fst m) (requests (fst m) ++ rs),
           snd m ++ [{| captured_todos := todos (fst m); call := c |}])
      end
  | settle n =>
      match nth_error (snd m) n with
      | Some p =>
          (with_requests
             (snd (handler user (captured_todos p) (call p) (fst m)))
             (requests (fst m)),
           remove_nth n (snd m))
      | None => m
      end
  end.

Definition run (user : option User) (m : State * list InFlight)
  (es : list Event) : State * list InFlight :=
  fold_left (step user) es m.

(** The id a call patches by when its remote call succeeds; [None] for a
    call that does not patch the list by id. *)
Definition patch_key (c : Call) : option jsstring :=
  match c with
  | toggle id _ _ (success _) => Some id
  | delete id (success _) => Some id
  | update id _ _ _ (success _) => Some id
  | _ => None
  end.

(** ** The callers: [TodoForm.tsx] and [TodoItem.tsx]

    Each caller has [useState] cells of its own; a handler returns the
    caller's new cells next to the new state of [TodoList]. The callbacks
    [onSubmit], [onToggle], [onDelete] and [onUpdate] are handlers of
    [TodoList] with their awaited replies already supplied. *)

Module TodoForm.
Record t : Type := {
  title : jsstring;
  description : jsstring;
  loading : bool
}.

(** [useState('')], [useState('')], [useState(false)]. *)
Definition mount : t := {| title := []; description := []; loading := false |}.

Definition handleSubmit (onSubmit : jsstring -> jsstring -> M unit) (f : t)
  (s : State) : t * State :=
  if negb (truthy (trim (title f))) then (f, s)
  else
    (* setLoading(true); try { ... } finally { setLoading(false) } *)
    match onSubmit (title f) (description f) s with
    | (normal _, s') =>
        ({| title := []; description := []; loading := false |}, s')
    | (throws _, s') =>
        ({| title := title f; description := description f;
            loading := false |}, s')
    end.
End TodoForm.

Module TodoItem.
Record t : Type := {
  isEditing : bool;
  editTitle : jsstring;
  editDescription : jsstring;
  loading : bool
}.

Definition mount (todo : Todo.t) : t :=
  {| isEditing := false;
     editTitle := Todo.title todo;
     editDescription := or_empty (Todo.description todo);
     loading := false |}.

Definition handleSaveEdit
  (onUpdate : jsstring -> jsstring -> jsstring -> M unit) (todo : Todo.t)
  (i : t) (s : State) : t * State :=
  if negb (truthy (trim (editTitle i))) then (i, s)
  else
    match onUpdate (Todo.id todo) (editTitle i) (editDescription i) s with
    | (normal _, s') =>
        ({| isEditing := false; editTitle := editTitle i;
            editDescription := editDescription i; loading := false |}, s')
    | (throws _, s') =>
        ({| isEditing := isEditing i; editTitle := editTitle i;
            editDescription := editDescription i; loading := false |}, s')
    end.

Definition handleCancelEdit (todo : Todo.t) (i : t) : t :=
  {| isEditing := false;
     editTitle := Todo.title todo;
     editDescription := or_empty (Todo.description todo);
     loading := loading i |}.

Definition handleToggle (onToggle : jsstring -> bool -> M unit)
  (todo : Todo.t) (i : t) (s : State) : t * State :=
  match onToggle (Todo.id todo) (negb (Todo.completed todo)) s with
  | (_, s') =>
      ({| isEditing := isEditing i; editTitle := editTitle i;
          editDescription := editDescription i; loading := false |}, s')
  end.

Definition handleDelete (onDelete : jsstring -> M unit) (todo : Todo.t)
  (i : t) (s : State) : t * State :=
  match onDelete (Todo.id todo) s with
  | (_, s') =>
      ({| isEditing := isEditing i; editTitle := editTitle i;
          editDescription := editDescription i; loading := false |}, s')
  end.
End TodoItem.

(** ** Order of the list, and the store's select *)

Section Chronology.
(** The instant a [created_at] text denotes. The store assigns and compares
    these timestamps; the component only carries the text. *)
Variable instant : jsstring -> Z.

(** [newer_eq a b]: the timestamp [a] is not before the timestamp [b]. *)
Definition newer_eq (a b : jsstring) : bool := (instant b <=? instant a)%Z.

(** Every task is at least as late as every task after it. *)
Definition descending (l : list Todo.t) : Prop :=
  StronglySorted
    (fun a b => newer_eq (Todo.created_at a) (Todo.created_at b) = true) l.

(** The remote store is outside the repository; this is its answer to a
    select, as its query interface describes it: the rows of the table in
    the order the request asks for. Rows are put in order by insertion;
    [before a b] says that [a] may come before [b]. Only the order by
    [created_at] is described; any other request has no answer here. *)
Fixpoint insert_row (before : Todo.t -> Todo.t -> bool) (x : Todo.t)
  (l : list Todo.t) : list Todo.t :=
  match l with
  | [] => [x]
  | y :: l' => if before x y then x :: y :: l' else y :: insert_row before x l'
  end.

Definition order_rows (before : Todo.t -> Todo.t -> bool)
  (table : list Todo.t) : list Todo.t :=
  fold_right (insert_row before) [] table.

Definition store_select (req : Request) (table : list Todo.t)
  : option (list Todo.t) :=
  match req with
  | select_ordered column ascending =>
      if strict_eq column (js "created_at")
      then Some (order_rows
                   (fun a b =>
                      if ascending
                      then newer_eq (Todo.created_at b) (Todo.created_at a)
                      else newer_eq (Todo.created_at a) (Todo.created_at b))
                   table)
      else None
  | _ => None
  end.

(** What is assumed of the store about a call issued while the list is
    [current]: the rows a load receives are the store's answer to the
    request the load sent, for some content of the table; and a created
    record is at least as late as the tasks that already exist. *)
Definition store_reply_ok (user : option User) (current : list Todo.t)
  (c : Call) : Prop :=
  match c with
  | fetch (success (Some rows)) =>
      Forall (fun req => exists table, store_select req table = Some rows)
        (issued user current c)
  | add _ _ (success data) =>
      Forall (fun t => newer_eq (Todo.created_at data) (Todo.created_at t) = true)
        current
  | _ => True
  end.

(** The assumption along calls that settle one after the other. *)
Fixpoint calls_ok (user : option User) (s : State) (cs : list Call) : Prop :=
  match cs with
  | [] => True
  | c :: cs' =>
      store_reply_ok user (todos s) c /\ calls_ok user (perform user s c) cs'
  end.

(** The assumption along calls that overlap: it holds for the list the
    handler captured when the call was issued. *)
Fixpoint store_ok (user : option User) (m : State * list InFlight)
  (es : list Event) : Prop :=
  match es with
  | [] => True
  | e :: es' =>
      match e with
      | issue c => store_reply_ok user (todos (fst m)) c
      | settle _ => True
      end /\ store_ok user (step user m e) es'
  end.

(** What holds of the machine between any two events: the list is
    descending, and so is the list every suspended handler captured, for
    which the assumption on the store holds. *)
Definition settled_and_pending_sorted (user : option User)
  (m : State * list InFlight) : Prop :=
  descending (todos (fst m)) /\
  Forall (fun p => descending (captured_todos p) /\
                   store_reply_ok user (captured_todos p) (call p))
    (snd m).
End Chronology.

(** The number written by the decimal digits of a text, the other code
    units skipped: for timestamps written in one fixed-width format and one
    time zone it grows with the instant. *)
Definition digits_value (s : jsstring) : Z :=
  fold_left
    (fun acc c =>
       if ((48 <=? c) && (c <=? 57))%N
       then (acc * 10 + (Z.of_N c - 48))%Z
       else acc)
    s 0%Z.

(** [removed id l l']: [l'] is [l] without the tasks whose id is [id], the
    others all there, as often and in the order they were. *)
Inductive removed (id : jsstring) : list Todo.t -> list Todo.t -> Prop :=
| removed_nil : removed id [] []
| removed_drop t l l' :
    Todo.id t = id -> removed id l l' -> removed id (t :: l) l'
| removed_keep t l l' :
    Todo.id t <> id -> removed id l l' -> removed id (t :: l) (t :: l').

(** ** Sample data, used to run the handlers on concrete inputs *)

Definition ana : User := {| user_id := js "u-1" |}.

Definition milk : Todo.t :=
  Todo.mk (js "7") (js "Buy milk") None false (js "2024-05-01T10:00:00+00:00").

Definition bread : Todo.t :=
  Todo.mk (js "4") (js "Buy bread") (Some (js "rye")) false
    (js "2024-04-30T09:00:00+00:00").

Definition two_tasks : State :=
  {| todos := [milk; bread]; loading := false; toasts := []; requests := [] |}.

Definition noon : jsstring := js "2024-05-02T12:00:00.000Z".

Definition tea : Todo.t :=
  Todo.mk (js "9") (js "Buy tea") None false (js "2024-05-03T08:30:00+00:00").

(** A session on a store that holds two tasks: load them, create a later
    one, complete, edit, delete. *)
Definition long_session : list Call :=
  [fetch (success (Some [milk; bread]));
   add (js "Buy tea") [] (success tea);
   toggle (js "4") true noon (success tt);
   update (js "7") (js "Buy oat milk") (js "2%") noon (success tt);
   delete (js "4") (success tt)].

(** A load, then a toggle and a create that are both in flight when the
    toggle settles. *)
Definition overlapping_session : list Event :=
  [issue (fetch (success (Some [milk; bread]))); settle 0;
   issue (toggle (js "7") true noon (success tt));
   issue (add (js "Buy tea") [] (success tea));
   settle 0; settle 0].

(** A title typed with a space on each side. *)
Definition padded : jsstring := js " a ".

Definition padded_form : TodoForm.t :=
  {| TodoForm.title := padded; TodoForm.description := [];
     TodoForm.loading := false |}.

(** Two toggles on different tasks, both issued before either settles. *)
Definition overlapping_toggles : list Event :=
  [issue (toggle (js "7") true noon (success tt));
   issue (toggle (js "4") true noon (success tt));
   settle 0; settle 0].

(** The same two toggles, each settled before the next is issued. *)
Definition successive_toggles : list Event :=
  [issue (toggle (js "7") true noon (success tt)); settle 0;
   issue (toggle (js "4") true noon (success tt)); settle 0].

Definition milk_done : Todo.t :=
  Todo.mk (js "7") (js "Buy milk") None true (js "2024-05-01T10:00:00+00:00").

Definition bread_done : Todo.t :=
  Todo.mk (js "4") (js "Buy bread") (Some (js "rye")) true
    (js "2024-04-30T09:00:00+00:00").

(** A session: load one task, create a later one, complete, edit, delete. *)
Definition session : list Call :=
  [fetch (success (Some [bread]));
   add (js "Buy milk") [] (success milk);
   toggle (js "4") true noon (success tt);
   update (js "7") (js "Buy oat milk") (js "2%") noon (success tt);
   delete (js "4") (success tt)].

(** ** What the components render

    The JSX is kept as the choices the code makes: which branch is shown and
    with which values. *)

(** [todos.filter(todo => todo.completed).length] and [todos.length]. *)
Definition completedCount (todos : list Todo.t) : nat :=
  List.length (filter Todo.completed todos).

Definition totalCount (todos : list Todo.t) : nat := List.length todos.

(** The header line: the counts when [totalCount > 0], otherwise the text
    that no task exists yet. *)
Inductive Header : Type :=
| counts (completed total : nat)
| no_tasks_yet.

(** The list area: the placeholder when [todos.length === 0], otherwise one
    [TodoItem] per task, in the order of [todos]. *)
Inductive Listing : Type :=
| nothing_found
| items (l : list Todo.t).

Inductive Screen : Type :=
| spinner
| page (h : Header) (l : Listing).

(** The body of [TodoList] after its handlers: [if (loading) return ...]
    and then the page. *)
Definition render (s : State) : Screen :=
  if loading s then spinner
  else
    page
      (if Nat.ltb 0 (totalCount (todos s))
       then counts (completedCount (todos s)) (totalCount (todos s))
       else no_tasks_yet)
      (if Nat.eqb (List.length (todos s)) 0
       then nothing_found
       else items (todos s)).

(** [{todo.description && (<p>...{todo.description}</p>)}] in [TodoItem]:
    the paragraph and its text, if one is rendered. *)
Definition description_paragraph (todo : Todo.t) : option jsstring :=
  match Todo.description todo with
  | Some d => if truthy d then Some d else None
  | None => None
  end.

(** [Index.tsx]: [useAuth()] gives [user] and [loading]. *)
Module Index.
Inductive Page : Type :=
| waiting
| todo_list
| auth_form.

Definition render (user : option User) (loading : bool) : Page :=
  if loading then waiting
  else match user with
       | Some _ => todo_list
       | None => auth_form
       end.
End Index.

(** ** Vocabulary for the properties of the handlers *)

Definition is_failure {A} (r : PostgrestResponse A) : bool :=
  match r with
  | success _ => false
  | failure _ => true
  end.

Definition is_some {A} (o : option A) : bool :=
  match o with
  | Some _ => true
  | None => false
  end.

(** The call runs into its [catch]: the store answered with an error, or
    [create] was invoked without a user. A load without a user does not run
    at all. *)
Definition call_fails (user : option User) (c : Call) : bool :=
  match c with
  | fetch reply => is_some user && is_failure reply
  | add _ _ reply => negb (is_some user) || is_failure reply
  | toggle _ _ _ reply => is_failure reply
  | delete _ reply => is_failure reply
  | update _ _ _ _ reply => is_failure reply
  end.

(** The call reaches its [setTodos]. *)
Definition writes_list (user : option User) (c : Call) : bool :=
  match c with
  | fetch reply => is_some user && negb (is_failure reply)
  | _ => negb (call_fails user c)
  end.

Definition is_fetch (c : Call) : bool :=
  match c with
  | fetch _ => true
  | _ => false
  end.


(** What the store guarantees about ids: a fetch answers with distinct ids,
    and a created record has an id that no task of the list has. *)
Definition store_ids_ok (current : list Todo.t) (c : Call) : Prop :=
  match c with
  | fetch (success (Some rows)) => NoDup (map Todo.id rows)
  | add _ _ (success data) => ~ In (Todo.id data) (map Todo.id current)
  | _ => True
  end.

Fixpoint calls_ids_ok (user : option User) (s : State) (cs : list Call)
  : Prop :=
  match cs with
  | [] => True
  | c :: cs' =>
      store_ids_ok (todos s) c /\ calls_ids_ok user (perform user s c) cs'
  end.

(** [kept l l']: [l] is [l'] with some elements left out, the others in
    their order. *)
Inductive kept {A : Type} : list A -> list A -> Prop :=
| kept_nil : kept [] []
| kept_cons x l l' : kept l l' -> kept (x :: l) (x :: l')
| kept_skip x l l' : kept l l' -> kept l (x :: l').

(** * Facts about strings *)

Lemma strict_eq_spec (a b : jsstring) : reflect (a = b) (strict_eq a b).
Proof.
  revert b; induction a as [|x a IH]; intros [|y b]; simpl;
    try (constructor; congruence).
  destruct (N.eqb_spec x y) as [->|Hxy]; simpl.
  - destruct (IH b) as [->|Hab]; constructor; congruence.
  - constructor; congruence.
Qed.

Lemma strict_eq_refl (a : jsstring) : strict_eq a a = true.
Proof. destruct (strict_eq_spec a a); congruence. Qed.

Lemma strict_eq_neq (a b : jsstring) : a <> b -> strict_eq a b = false.
Proof. destruct (strict_eq_spec a b); congruence. Qed.

Lemma trimStart_blank (s : jsstring) :
  trimStart s = [] <-> forallb is_space s = true.
Proof.
  induction s as [|c s IH]; simpl.
  - tauto.
  - destruct (is_space c); simpl; [exact IH | split; discriminate].
Qed.

Lemma trimStart_spaces_of_result (s : jsstring) :
  forallb is_space (trimStart s) = true -> trimStart s = [].
Proof.
  induction s as [|c s IH]; simpl; [reflexivity|].
  destruct (is_space c) eqn:Hc; [exact IH|].
  simpl; rewrite Hc; discriminate.
Qed.

Lemma forallb_reversed {A} (f : A -> bool) (l : list A) :
  forallb f (rev l) = forallb f l.
Proof.
  induction l as [|x l IH]; simpl; [reflexivity|].
  rewrite forallb_app, IH; simpl.
  rewrite andb_true_r; apply andb_comm.
Qed.

(** [trim] answers the empty string exactly on blank strings. *)
Lemma trim_blank (s : jsstring) :
  trim s = [] <-> forallb is_space s = true.
Proof.
  unfold trim, trimEnd; split; intros H.
  - apply trimStart_blank, trimStart_spaces_of_result.
    rewrite <- forallb_reversed. apply trimStart_blank.
    destruct (trimStart (rev (trimStart s))) as [|c r] eqn:E; [reflexivity|].
    simpl in H; destruct (rev r); discriminate.
  - apply trimStart_blank in H; rewrite H; reflexivity.
Qed.

(** * Facts about the list patches *)

Lemma map_no_match {A} (p : A -> bool) (f : A -> A) (l : list A) :
  (forall x, In x l -> p x = false) ->
  map (fun x => if p x then f x else x) l = l.
Proof.
  intros H. rewrite <- (map_id l) at 2.
  apply map_ext_in; intros x Hx. rewrite (H x Hx); reflexivity.
Qed.

Lemma id_absent (id : jsstring) (l : list Todo.t) :
  ~ In id (map Todo.id l) ->
  forall t, In t l -> strict_eq (Todo.id t) id = false.
Proof.
  intros H t Ht. apply strict_eq_neq. intros E. apply H.
  rewrite <- E. apply in_map, Ht.
Qed.

Lemma filter_kept {A} (p : A -> bool) (l : list A) : kept (filter p l) l.
Proof.
  induction l as [|x l IH]; simpl; [constructor|].
  destruct (p x); constructor; exact IH.
Qed.

Lemma filter_all {A} (p : A -> bool) (l : list A) :
  (forall x, In x l -> p x = true) -> filter p l = l.
Proof.
  intros H. apply forallb_filter_id, forallb_forall, H.
Qed.


(** * The operations of the synchroniser *)

(** C1. When the remote insert fails, [create] leaves the task list as it
    was, whatever list the handler had captured, and raises exactly one
    toast: a destructive one whose description is the failure's message. The
    insert was issued once and nothing else changed. *)
Theorem create_failure_keeps_tasks (u : User) (captured : list Todo.t)
  (title description : jsstring) (e : Thrown) (s : State) :
  let s' := snd (addTodo (Some u) captured title description (failure e) s) in
  todos s' = todos s /\
  List.length (todos s') = List.length (todos s) /\
  toasts s' =
    toasts s ++ [{| Toast.title := js "Erro ao adicionar tarefa";
                    Toast.description := message e;
                    Toast.variant := Some destructive |}] /\
  requests s' =
    requests s ++ [insert_todo (user_id u) title (or_null description)] /\
  loading s' = loading s /\
  todos (perform (Some u) s (add title description (failure e))) = todos s.
Proof.
  cbv zeta. repeat split; reflexivity.
Qed.

(** C7. Without a user the effect does nothing: the state is untouched, so
    from the initial state the list stays empty and no remote call is made.
    With a user, a failed fetch raises one destructive toast carrying the
    failure's message, leaves the list as it was and clears [loading]; and
    [loading] is false after the fetch whatever the store answered. *)
Theorem load_gate_failure_and_loading :
  (forall reply s, snd (useEffect_user None reply s) = s) /\
  (forall reply,
      todos (perform None initial (fetch reply)) = [] /\
      requests (perform None initial (fetch reply)) = []) /\
  (forall u e s,
      let s' := snd (useEffect_user (Some u) (failure e) s) in
      todos s' = todos s /\
      loading s' = false /\
      requests s' = requests s ++ [select_todos] /\
      toasts s' =
        toasts s ++ [{| Toast.title := js "Erro ao carregar tarefas";
                        Toast.description := message e;
                        Toast.variant := Some destructive |}]) /\
  (forall u reply s, loading (snd (useEffect_user (Some u) reply s)) = false) /\
  (forall u rows s,
      todos (snd (useEffect_user (Some u) (success (Some rows)) s)) = rows).
Proof.
  repeat split.
  - destruct reply as [[rows|]|e]; reflexivity.
Qed.

(** What [toggleTodo] and [updateTodo] make of one task. *)
Lemma toggle_nth (l : list Todo.t) (id : jsstring) (c : bool) (i : nat) :
  nth_error
    (map (fun todo =>
            if strict_eq (Todo.id todo) id
            then Todo.mk (Todo.id todo) (Todo.title todo)
                   (Todo.description todo) c (Todo.created_at todo)
            else todo) l) i
  = option_map
      (fun todo =>
         if strict_eq (Todo.id todo) id
         then Todo.mk (Todo.id todo) (Todo.title todo)
                (Todo.description todo) c (Todo.created_at todo)
         else todo) (nth_error l i).
Proof. apply nth_error_map. Qed.

(** C3. A successful [toggle] keeps the length of the list; at every
    position the task keeps its id, title, description and creation time, a
    task with the given id gets [completed = newCompleted] and any other
    task is unchanged. Exactly one toast is raised: the "concluída" text for
    [true], the "reaberta" text for [false], and the two differ. *)
Theorem toggle_patches_completed_only (user : option User) (s : State)
  (id : jsstring) (newCompleted : bool) (now : jsstring) :
  let s' := perform user s (toggle id newCompleted now (success tt)) in
  List.length (todos s') = List.length (todos s) /\
  (forall i t, nth_error (todos s) i = Some t ->
     exists t',
       nth_error (todos s') i = Some t' /\
       Todo.id t' = Todo.id t /\
       Todo.title t' = Todo.title t /\
       Todo.description t' = Todo.description t /\
       Todo.created_at t' = Todo.created_at t /\
       (Todo.id t = id -> Todo.completed t' = newCompleted) /\
       (Todo.id t <> id -> t' = t)) /\
  toasts s' =
    toasts s ++
      [if newCompleted
       then {| Toast.title := concluida_title;
               Toast.description := concluida_description;
               Toast.variant := None |}
       else {| Toast.title := js "Tarefa reaberta";
               Toast.description := js "Tarefa marcada como pendente.";
               Toast.variant := None |}] /\
  concluida_title <> js "Tarefa reaberta".
Proof.
  cbv zeta. unfold perform; simpl. split; [apply length_map|]. split.
  - intros i t Hi. rewrite toggle_nth, Hi; simpl.
    destruct (strict_eq_spec (Todo.id t) id) as [E|E].
    + eexists; split; [reflexivity|]. simpl. repeat split; congruence.
    + exists t. repeat split; congruence.
  - split; [destruct newCompleted; reflexivity | discriminate].
Qed.

(** C8. [toggle] stores the argument it is given: after a successful
    [toggle (id of the task at position i) newCompleted] the task at
    position [i] has [completed = newCompleted]. The item component passes
    the negation of the task's current value, so after its handler the task
    at that position is the old one with [completed] negated, and the remote
    call carries the negated value. *)
Theorem toggle_stores_argument_caller_negates (user : option User) (s : State)
  (i : nat) (todo : Todo.t) (item : TodoItem.t) (now : jsstring) :
  nth_error (todos s) i = Some todo ->
  (forall newCompleted,
      exists t',
        nth_error
          (todos (perform user s
                    (toggle (Todo.id todo) newCompleted now (success tt)))) i
        = Some t' /\
        Todo.completed t' = newCompleted) /\
  let s' :=
    snd (TodoItem.handleToggle
           (fun id completed => toggleTodo (todos s) id completed now (success tt))
           todo item s) in
  nth_error (todos s') i =
    Some (Todo.mk (Todo.id todo) (Todo.title todo) (Todo.description todo)
            (negb (Todo.completed todo)) (Todo.created_at todo)) /\
  requests s' =
    requests s ++ [update_completed (Todo.id todo) (negb (Todo.completed todo)) now].
Proof.
  intros Hi. cbv zeta. unfold perform; simpl. split; [|split].
  - intros c. rewrite toggle_nth, Hi; simpl. rewrite strict_eq_refl.
    eexists; split; reflexivity.
  - rewrite toggle_nth, Hi; simpl. rewrite strict_eq_refl. reflexivity.
  - reflexivity.
Qed.

Lemma toggle_stores_argument_caller_negates_witness :
  nth_error (todos two_tasks) 0 = Some milk /\
  nth_error
    (todos
       (snd (TodoItem.handleToggle
               (fun id completed =>
                  toggleTodo (todos two_tasks) id completed noon (success tt))
               milk (TodoItem.mount milk) two_tasks))) 0
  = Some (Todo.mk (js "7") (js "Buy milk") None true
            (js "2024-05-01T10:00:00+00:00")).
Proof.
  split; [reflexivity|].
  exact (proj1 (proj2 (@toggle_stores_argument_caller_negates
                         (Some ana) two_tasks 0 milk (TodoItem.mount milk) noon
                         eq_refl))).
Defined.

(** C10. For an id that no task of the list has, a successful [toggle] and
    a successful [update] still issue their remote update, leave the list
    exactly as it was, and raise their success toast. *)
Theorem absent_id_patch_is_identity (user : option User) (s : State)
  (id title description : jsstring) (completed : bool) (now : jsstring) :
  ~ In id (map Todo.id (todos s)) ->
  let st := perform user s (toggle id completed now (success tt)) in
  let su := perform user s (update id title description now (success tt)) in
  (requests st = requests s ++ [update_completed id completed now] /\
   todos st = todos s /\
   toasts st =
     toasts s ++
       [{| Toast.title :=
             if completed then concluida_title else js "Tarefa reaberta";
           Toast.description :=
             if completed then concluida_description
             else js "Tarefa marcada como pendente.";
           Toast.variant := None |}]) /\
  (requests su = requests s ++ [update_text id title (or_null description) now] /\
   todos su = todos s /\
   toasts su =
     toasts s ++
       [{| Toast.title := js "Tarefa atualizada!";
           Toast.description := alteracoes_description;
           Toast.variant := None |}]).
Proof.
  intros Habs. cbv zeta. unfold perform; simpl.
  pose proof (id_absent id (todos s) Habs) as Hno.
  repeat split.
  - apply (map_no_match (fun todo => strict_eq (Todo.id todo) id)); exact Hno.
  - apply (map_no_match (fun todo => strict_eq (Todo.id todo) id)); exact Hno.
Qed.

Lemma absent_id_patch_is_identity_witness :
  ~ In (js "9") (map Todo.id (todos two_tasks)) /\
  todos (perform (Some ana) two_tasks (toggle (js "9") true noon (success tt)))
  = todos two_tasks /\
  todos (perform (Some ana) two_tasks
           (update (js "9") (js "x") (js "y") noon (success tt)))
  = todos two_tasks.
Proof.
  assert (H : ~ In (js "9") (map Todo.id (todos two_tasks))).
  { simpl. intros [E|[E|[]]]; discriminate E. }
  split; [exact H|].
  pose proof (@absent_id_patch_is_identity (Some ana) two_tasks (js "9")
                (js "x") (js "y") true noon H) as [[_ [Ht _]] [_ [Hu _]]].
  split; [exact Ht | exact Hu].
Defined.

Lemma filter_removed (id : jsstring) (l : list Todo.t) :
  removed id l (filter (fun todo => negb (strict_eq (Todo.id todo) id)) l).
Proof.
  induction l as [|x l IH]; simpl; [constructor|].
  destruct (strict_eq_spec (Todo.id x) id) as [E|E]; simpl;
    constructor; assumption.
Qed.

Lemma removed_unique (id : jsstring) (l l1 l2 : list Todo.t) :
  removed id l l1 -> removed id l l2 -> l1 = l2.
Proof.
  intros H1; revert l2.
  induction H1 as [|t l l1 Ht H1 IH|t l l1 Ht H1 IH]; intros l2 H2;
    inversion H2; subst; try contradiction; try reflexivity.
  - apply IH; assumption.
  - f_equal. apply IH; assumption.
Qed.

(** C6. A successful [delete] leaves exactly the list without the tasks
    whose id is the given one: every such task is gone, however many there
    are, and every other task is there as often and in the order it was;
    no other list fits. When one task has the id, the list loses that task
    and nothing else; when no task has it, the list is unchanged. *)
Theorem delete_removes_by_id (user : option User) (s : State) (id : jsstring) :
  let s' := perform user s (delete id (success tt)) in
  (forall t, In t (todos s') <-> In t (todos s) /\ Todo.id t <> id) /\
  kept (todos s') (todos s) /\
  (forall before t after,
      todos s = before ++ t :: after ->
      Todo.id t = id ->
      ~ In id (map Todo.id before) ->
      ~ In id (map Todo.id after) ->
      todos s' = before ++ after) /\
  (~ In id (map Todo.id (todos s)) -> todos s' = todos s) /\
  requests s' = requests s ++ [delete_todo id] /\
  removed id (todos s) (todos s') /\
  (forall l', removed id (todos s) l' -> l' = todos s').
Proof.
  cbv zeta. unfold perform; simpl.
  split; [|split; [|split; [|split; [|split; [|split]]]]].
  - intros t. split.
    + intros H. apply filter_In in H as [Hin H]. split; [exact Hin|].
      intros E. rewrite E, strict_eq_refl in H; discriminate.
    + intros [Hin Hne]. apply filter_In; split; [exact Hin|].
      rewrite strict_eq_neq by exact Hne; reflexivity.
  - apply filter_kept.
  - intros before t after Hs Hid Hb Ha. rewrite Hs, filter_app; simpl.
    rewrite Hid, strict_eq_refl; simpl.
    rewrite !filter_all; [reflexivity| |];
      intros x Hx; [rewrite (id_absent id after Ha x Hx)
                   | rewrite (id_absent id before Hb x Hx)]; reflexivity.
  - intros Habs. apply filter_all; intros x Hx.
    rewrite (id_absent id (todos s) Habs x Hx); reflexivity.
  - reflexivity.
  - apply filter_removed.
  - intros l' H. apply (removed_unique H). apply filter_removed.
Qed.

(** C4 (the code departs from it). A successful [update] with the empty
    string as description sends [description: null] to the store, but every
    task it patches in memory gets the empty string, not [null]; on the
    sample list the task with id 4 ends with [Some []]. *)
Theorem update_empty_description_stays_empty_string :
  (forall (user : option User) (s : State) (id title now : jsstring),
      let s' := perform user s (update id title [] now (success tt)) in
      requests s' = requests s ++ [update_text id title None now] /\
      (forall t, In t (todos s') -> Todo.id t = id ->
                 Todo.description t = Some [])) /\
  todos (perform (Some ana) two_tasks
           (update (js "4") (js "Buy bread") [] noon (success tt)))
  = [milk;
     Todo.mk (js "4") (js "Buy bread") (Some []) false
       (js "2024-04-30T09:00:00+00:00")].
Proof.
  split; [|reflexivity].
  intros user s id title now. cbv zeta. unfold perform; simpl.
  split; [reflexivity|].
  intros t Ht Hid. apply in_map_iff in Ht as [x [Hx _]].
  destruct (strict_eq_spec (Todo.id x) id) as [E|E].
  - rewrite <- Hx; reflexivity.
  - subst t; contradiction.
Qed.

(** * The callers' guard on titles *)

Lemma blank_title_guard (s : jsstring) :
  negb (truthy (trim s)) = forallb is_space s.
Proof.
  destruct (forallb is_space s) eqn:E.
  - apply trim_blank in E; rewrite E; reflexivity.
  - destruct (trim s) eqn:T; [|reflexivity].
    apply trim_blank in T; congruence.
Qed.

(** C5, as the claim states it, fails: the form passes the typed text, not
    its trim. Typing " a " issues an insert whose title is " a ", while the
    trim of " a " is "a". *)
Lemma submitted_title_is_not_trimmed :
  requests
    (snd (TodoForm.handleSubmit
            (fun title description =>
               addTodo (Some ana) [] title description (success milk))
            padded_form initial))
  = [insert_todo (js "u-1") (js " a ") None] /\
  trim (js " a ") = js "a" /\
  js " a " <> trim (js " a ").
Proof.
  split; [reflexivity|]. split; [reflexivity|]. discriminate.
Qed.

(** C5, amended. Both callers test the trim of the typed title and pass the
    typed title itself. When the title is blank (empty or only white space)
    the handler returns before anything else: the caller's cells and the
    state of the list are untouched and no remote call is issued. Otherwise
    the only remote call issued carries the typed title unchanged, and that
    title is not empty. (Without a user [create] throws before its insert,
    and no call is issued at all.) *)
Theorem callers_reject_blank_titles_pass_typed_text
  (user : option User) (s : State) :
  (forall (f : TodoForm.t) (reply : PostgrestResponse Todo.t),
      let r := TodoForm.handleSubmit
                 (fun title description =>
                    addTodo user (todos s) title description reply) f s in
      if forallb is_space (TodoForm.title f)
      then r = (f, s)
      else
        requests (snd r) =
          requests s ++
            match user with
            | Some u => [insert_todo (user_id u) (TodoForm.title f)
                           (or_null (TodoForm.description f))]
            | None => []
            end /\
        TodoForm.title f <> [] /\ trim (TodoForm.title f) <> []) /\
  (forall (todo : Todo.t) (i : TodoItem.t) (now : jsstring)
          (reply : PostgrestResponse unit),
      let r := TodoItem.handleSaveEdit
                 (fun id title description =>
                    updateTodo (todos s) id title description now reply)
                 todo i s in
      if forallb is_space (TodoItem.editTitle i)
      then r = (i, s)
      else
        requests (snd r) =
          requests s ++
            [update_text (Todo.id todo) (TodoItem.editTitle i)
               (or_null (TodoItem.editDescription i)) now] /\
        TodoItem.editTitle i <> [] /\ trim (TodoItem.editTitle i) <> []).
Proof.
  split.
  - intros f reply. cbv zeta. unfold TodoForm.handleSubmit.
    rewrite blank_title_guard.
    destruct (forallb is_space (TodoForm.title f)) eqn:E; [reflexivity|].
    assert (Ht : trim (TodoForm.title f) <> []).
    { intros T. apply trim_blank in T. congruence. }
    split; [|split; [intros T; rewrite T in Ht; apply Ht; reflexivity | exact Ht]].
    destruct user as [u|]; [destruct reply as [data|e]; reflexivity|].
    simpl. rewrite app_nil_r. reflexivity.
  - intros todo i now reply. cbv zeta. unfold TodoItem.handleSaveEdit.
    rewrite blank_title_guard.
    destruct (forallb is_space (TodoItem.editTitle i)) eqn:E; [reflexivity|].
    assert (Ht : trim (TodoItem.editTitle i) <> []).
    { intros T. apply trim_blank in T. congruence. }
    split; [|split; [intros T; rewrite T in Ht; apply Ht; reflexivity | exact Ht]].
    destruct reply as [[]|e]; reflexivity.
Qed.

(** * Calls that overlap *)

(** C9 (the code departs from it). Two toggles on different tasks are
    issued from the same render and both succeed. Each handler patches the
    list its closure captured, so the one that settles last overwrites the
    other's patch: the task with id 7 is still not completed, in either
    order of settlement. Issued one after the other, both patches stay. *)
Theorem overlapping_toggles_lose_a_patch :
  todos (fst (run (Some ana) (two_tasks, []) overlapping_toggles))
  = [milk; bread_done] /\
  todos (fst (run (Some ana) (two_tasks, [])
                [issue (toggle (js "7") true noon (success tt));
                 issue (toggle (js "4") true noon (success tt));
                 settle 1; settle 0]))
  = [milk_done; bread] /\
  todos (fst (run (Some ana) (two_tasks, []) successive_toggles))
  = [milk_done; bread_done] /\
  todos (perform_all (Some ana) two_tasks
           [toggle (js "4") true noon (success tt);
            toggle (js "7") true noon (success tt)])
  = [milk_done; bread_done] /\
  toasts (fst (run (Some ana) (two_tasks, []) overlapping_toggles))
  = [{| Toast.title := concluida_title;
        Toast.description := concluida_description;
        Toast.variant := None |};
     {| Toast.title := concluida_title;
        Toast.description := concluida_description;
        Toast.variant := None |}].
Proof. repeat split. Qed.

(** * The order of the list *)

Lemma nth_error_Forall {A} (P : A -> Prop) (l : list A) (n : nat) (x : A) :
  Forall P l -> nth_error l n = Some x -> P x.
Proof.
  intros H Hn. rewrite Forall_forall in H. apply H.
  apply nth_error_In with n; exact Hn.
Qed.

Lemma remove_nth_Forall {A} (P : A -> Prop) (n : nat) (l : list A) :
  Forall P l -> Forall P (remove_nth n l).
Proof.
  intros H; revert n; induction H as [|x l Hx Hl IH]; intros [|n]; simpl;
    auto.
Qed.

(** A call that is issued and settles with nothing in between is the call
    performed at once, requests included. *)
Lemma perform_as_run (user : option User) (s : State) (c : Call) :
  run user (s, []) [issue c; settle 0] = (perform user s c, []).
Proof.
  destruct c as [[[rows|]|e] | title description [data|e]
                | id completed now [[]|e] | id [[]|e]
                | id title description now [[]|e]];
    destruct user as [u|]; reflexivity.
Qed.

Section ChronologyFacts.
Variable instant : jsstring -> Z.

Let sorted := descending instant.
Let later (a b : Todo.t) : bool :=
  newer_eq instant (Todo.created_at a) (Todo.created_at b).

Lemma later_total (a b : Todo.t) : later a b = false -> later b a = true.
Proof.
  unfold later, newer_eq. rewrite Z.leb_gt, Z.leb_le. lia.
Qed.

Lemma later_trans (a b c : Todo.t) :
  later a b = true -> later b c = true -> later a c = true.
Proof.
  unfold later, newer_eq. rewrite !Z.leb_le. lia.
Qed.

Lemma insert_row_In (before : Todo.t -> Todo.t -> bool) (x z : Todo.t)
  (l : list Todo.t) :
  In z (insert_row before x l) <-> z = x \/ In z l.
Proof.
  induction l as [|y l IH]; simpl.
  - split; intros [H|H]; auto.
  - destruct (before x y); simpl; [split; intros [H|H]; auto|].
    rewrite IH. split; intros H; tauto.
Qed.

Lemma order_rows_In (before : Todo.t -> Todo.t -> bool) (z : Todo.t)
  (table : list Todo.t) :
  In z (order_rows before table) <-> In z table.
Proof.
  induction table as [|x l IH]; simpl; [tauto|].
  rewrite insert_row_In, IH. split; intros [H|H]; auto.
Qed.

Lemma insert_row_descending (x : Todo.t) (l : list Todo.t) :
  sorted l -> sorted (insert_row later x l).
Proof.
  induction 1 as [|y l Hl IH Hy]; simpl.
  - constructor; constructor.
  - destruct (later x y) eqn:E.
    + constructor; [constructor; assumption|].
      constructor; [exact E|].
      rewrite Forall_forall in *. intros z Hz.
      apply later_trans with y; [exact E | apply Hy, Hz].
    + constructor; [exact IH|].
      rewrite Forall_forall in *. intros z Hz.
      apply insert_row_In in Hz as [->|Hz];
        [apply later_total, E | apply Hy, Hz].
Qed.

(** The store's answer to the select of [TodoList.tsx] is in descending
    order and holds the rows of the table. *)
Lemma select_todos_descending (table rows : list Todo.t) :
  store_select instant select_todos table = Some rows ->
  sorted rows /\ (forall t, In t rows <-> In t table).
Proof.
  unfold store_select, select_todos. simpl. intros H.
  injection H as <-. split.
  - induction table as [|x l IH]; simpl; [constructor|].
    apply insert_row_descending, IH.
  - intros t. apply order_rows_In.
Qed.

Lemma descending_filter (p : Todo.t -> bool) (l : list Todo.t) :
  sorted l -> sorted (filter p l).
Proof.
  induction 1 as [|x l Hl IH Hx]; simpl; [constructor|].
  destruct (p x); [|exact IH].
  constructor; [exact IH|].
  rewrite Forall_forall in *. intros y Hy.
  apply Hx. apply filter_In in Hy; tauto.
Qed.

Lemma descending_map (f : Todo.t -> Todo.t) (l : list Todo.t) :
  (forall t, Todo.created_at (f t) = Todo.created_at t) ->
  sorted l -> sorted (map f l).
Proof.
  intros Hf. induction 1 as [|x l Hl IH Hx]; simpl; constructor.
  - exact IH.
  - rewrite Forall_forall in *. intros y Hy.
    apply in_map_iff in Hy as [z [<- Hz]].
    rewrite !Hf. apply Hx, Hz.
Qed.

(** A handler run on a descending list, with a descending captured list
    and a reply the store may give, leaves a descending list. *)
Lemma handler_descending (user : option User) (captured : list Todo.t)
  (c : Call) (s : State) :
  sorted captured ->
  store_reply_ok instant user captured c ->
  sorted (todos s) ->
  sorted (todos (snd (handler user captured c s))).
Proof.
  intros Hcap Hok Hs.
  destruct c as [reply | title description reply | id completed now reply
                | id reply | id title description now reply]; simpl in *.
  - destruct user as [u|]; [|exact Hs].
    destruct reply as [[rows|]|e]; simpl; [|constructor | exact Hs].
    unfold issued in Hok; simpl in Hok.
    inversion Hok as [|req rest [table Htable] _]; subst.
    exact (proj1 (select_todos_descending Htable)).
  - destruct user as [u|]; [|exact Hs].
    destruct reply as [data|e]; simpl; [|exact Hs].
    constructor; [exact Hcap | exact Hok].
  - destruct reply as [[]|e]; simpl; [|exact Hs].
    apply descending_map; [|exact Hcap].
    intros t; destruct (strict_eq (Todo.id t) id); reflexivity.
  - destruct reply as [[]|e]; simpl; [|exact Hs].
    apply descending_filter; exact Hcap.
  - destruct reply as [[]|e]; simpl; [|exact Hs].
    apply descending_map; [|exact Hcap].
    intros t; destruct (strict_eq (Todo.id t) id); reflexivity.
Qed.

Lemma step_invariant (user : option User) (m : State * list InFlight)
  (e : Event) :
  settled_and_pending_sorted instant user m ->
  match e with
  | issue c => store_reply_ok instant user (todos (fst m)) c
  | settle _ => True
  end ->
  settled_and_pending_sorted instant user (step user m e).
Proof.
  intros [Hs Hp] He. destruct e as [c|n]; simpl.
  - destruct (issued user (todos (fst m)) c) as [|r rs] eqn:Ei.
    + split; simpl; [|exact Hp].
      apply handler_descending; assumption.
    + split; simpl; [exact Hs|]. apply Forall_app; split; [exact Hp|].
      constructor; [|constructor]. simpl. split; assumption.
  - destruct (nth_error (snd m) n) as [p|] eqn:En; [|split; assumption].
    destruct (@nth_error_Forall _ _ _ _ _ Hp En) as [Hc Hok].
    split; simpl.
    + apply handler_descending; assumption.
    + apply remove_nth_Forall; exact Hp.
Qed.

Lemma run_invariant (user : option User) (es : list Event) :
  forall m,
    settled_and_pending_sorted instant user m ->
    store_ok instant user m es ->
    settled_and_pending_sorted instant user (run user m es).
Proof.
  induction es as [|e es IH]; intros m Hm Hok; simpl in *; [exact Hm|].
  destruct Hok as [He Hrest].
  apply IH; [apply step_invariant; assumption | exact Hrest].
Qed.

Lemma perform_all_descending (user : option User) (cs : list Call) :
  forall s,
    sorted (todos s) ->
    calls_ok instant user s cs ->
    sorted (todos (perform_all user s cs)).
Proof.
  induction cs as [|c cs IH]; intros s Hs Hok; simpl in *; [exact Hs|].
  destruct Hok as [Hc Hrest].
  apply IH; [|exact Hrest].
  apply handler_descending; assumption.
Qed.

(** C2. Starting from the empty list, after any sequence of operations
    (loads, creates, toggles, updates and deletes, succeeding or failing,
    each settled before the next is issued) the list is in descending
    order of [created_at], given that each created record is at least as
    late as every task already in the list, and that a load receives what
    the store answers to the request the load sent. Operation by operation:
    a load asks for [created_at] descending, and the list becomes the
    store's answer, which is in that order and holds the rows of the table;
    a successful create puts the store's record at the head of the list as
    it was, without sorting; a successful toggle or update leaves every
    position its [created_at]; a successful delete leaves the remaining
    tasks in their order. *)
Theorem list_stays_descending (user : option User) (cs : list Call) :
  calls_ok instant user initial cs ->
  descending instant (todos (perform_all user initial cs)) /\
  (forall u s table rows,
      store_select instant select_todos table = Some rows ->
      let s' := perform (Some u) s (fetch (success (Some rows))) in
      requests s' = requests s ++ [select_ordered (js "created_at") false] /\
      todos s' = rows /\
      descending instant rows /\
      (forall t, In t rows <-> In t table)) /\
  (forall u s title description data,
      todos (perform (Some u) s (add title description (success data)))
      = data :: todos s) /\
  (forall s id completed now,
      map Todo.created_at
        (todos (perform user s (toggle id completed now (success tt))))
      = map Todo.created_at (todos s)) /\
  (forall s id title description now,
      map Todo.created_at
        (todos (perform user s (update id title description now (success tt))))
      = map Todo.created_at (todos s)) /\
  (forall s id,
      removed id (todos s) (todos (perform user s (delete id (success tt))))).
Proof.
  intros Hok. split; [apply perform_all_descending; [constructor | exact Hok]|].
  split; [|split; [reflexivity|split; [|split]]].
  - intros u s table rows Hrows. cbv zeta.
    split; [reflexivity|]. split; [reflexivity|].
    exact (select_todos_descending Hrows).
  - intros s id completed now. unfold perform; simpl.
    rewrite map_map. apply map_ext. intros t.
    destruct (strict_eq (Todo.id t) id); reflexivity.
  - intros s id title description now. unfold perform; simpl.
    rewrite map_map. apply map_ext. intros t.
    destruct (strict_eq (Todo.id t) id); reflexivity.
  - intros s id. unfold perform; simpl.
    induction (todos s) as [|x l IH]; simpl; [constructor|].
    destruct (strict_eq_spec (Todo.id x) id) as [E|E]; simpl;
      constructor; assumption.
Qed.

(** The same when the calls overlap: whatever the order in which calls
    are issued and settle, the list is descending after every event. *)
Lemma overlapping_calls_stay_descending (user : option User)
  (es : list Event) :
  store_ok instant user (initial, []) es ->
  descending instant (todos (fst (run user (initial, []) es))).
Proof.
  intros Hok.
  apply (@run_invariant user es (initial, [])); [|exact Hok].
  split; constructor.
Qed.
End ChronologyFacts.

Lemma list_stays_descending_witness :
  calls_ok digits_value (Some ana) initial long_session /\
  descending digits_value
    (todos (perform_all (Some ana) initial long_session)) /\
  todos (perform_all (Some ana) initial long_session)
  = [tea;
     Todo.mk (js "7") (js "Buy oat milk") (Some (js "2%")) false
       (js "2024-05-01T10:00:00+00:00")].
Proof.
  assert (H : calls_ok digits_value (Some ana) initial long_session).
  { simpl. repeat split.
    - constructor; [|constructor]. exists [bread; milk]. reflexivity.
    - repeat constructor. }
  split; [exact H|]. split; [|reflexivity].
  exact (proj1 (@list_stays_descending digits_value (Some ana) long_session H)).
Defined.

(** * Patches on different ids, one after the other *)

Ltac by_id_cases :=
  repeat match goal with
         | |- context [strict_eq ?a ?b] =>
             destruct (strict_eq_spec a b); simpl in *; subst
         end;
  try congruence.

(** Issued one after the other, two successful patches on different ids
    give the same list in either order. *)
Lemma successive_patches_commute (user : option User) (s : State)
  (c1 c2 : Call) (id1 id2 : jsstring) :
  patch_key c1 = Some id1 ->
  patch_key c2 = Some id2 ->
  id1 <> id2 ->
  todos (perform user (perform user s c1) c2)
  = todos (perform user (perform user s c2) c1).
Proof.
  intros H1 H2 Hne.
  destruct c1 as [r1 | t1 d1 r1 | i1 b1 n1 [[]|e1] | i1 [[]|e1]
                 | i1 t1 d1 n1 [[]|e1]]; try discriminate H1;
    destruct c2 as [r2 | t2 d2 r2 | i2 b2 n2 [[]|e2] | i2 [[]|e2]
                   | i2 t2 d2 n2 [[]|e2]]; try discriminate H2;
    simpl in H1, H2; injection H1 as ->; injection H2 as ->;
    unfold perform; simpl;
    induction (todos s) as [|x l IH]; simpl; try reflexivity;
    by_id_cases; rewrite ?IH; by_id_cases; reflexivity.
Qed.

Lemma delete_removes_by_id_witness :
  todos (perform (Some ana) two_tasks (delete (js "7") (success tt))) = [bread].
Proof.
  pose proof (@delete_removes_by_id (Some ana) two_tasks (js "7")) as H.
  cbv zeta in H. destruct H as [_ [_ [H _]]].
  apply (H [] milk [bread]).
  - reflexivity.
  - reflexivity.
  - simpl. tauto.
  - simpl. intros [E|[]]. discriminate E.
Defined.

(** * Failures and reports of the handlers *)

(** When the remote call of [toggle], [delete] or [update] fails, the list
    is left as it was, whatever list the handler had captured; the call was
    issued once, [loading] is untouched and exactly one destructive toast
    carries the failure's message. *)
Theorem write_failure_keeps_tasks (captured : list Todo.t)
  (id title description now : jsstring) (completed : bool) (e : Thrown)
  (s : State) :
  let st := snd (toggleTodo captured id completed now (failure e) s) in
  let sd := snd (deleteTodo captured id (failure e) s) in
  let su := snd (updateTodo captured id title description now (failure e) s) in
  (todos st = todos s /\ loading st = loading s /\
   requests st = requests s ++ [update_completed id completed now] /\
   toasts st =
     toasts s ++ [{| Toast.title := js "Erro ao atualizar tarefa";
                     Toast.description := message e;
                     Toast.variant := Some destructive |}]) /\
  (todos sd = todos s /\ loading sd = loading s /\
   requests sd = requests s ++ [delete_todo id] /\
   toasts sd =
     toasts s ++ [{| Toast.title := js "Erro ao remover tarefa";
                     Toast.description := message e;
                     Toast.variant := Some destructive |}]) /\
  (todos su = todos s /\ loading su = loading s /\
   requests su =
     requests s ++ [update_text id title (or_null description) now] /\
   toasts su =
     toasts s ++ [{| Toast.title := js "Erro ao atualizar tarefa";
                     Toast.description := message e;
                     Toast.variant := Some destructive |}]).
Proof. cbv zeta. repeat split. Qed.

Ltac each_call c :=
  destruct c as [[[?rows|]|?e] | ?title ?description [?data|?e]
                | ?id ?completed ?now [[]|?e] | ?id [[]|?e]
                | ?id ?title ?description ?now [[]|?e]].

(** No handler lets an error escape: every call completes normally. A call
    that fails leaves the list as it was and raises exactly one destructive
    toast. A call that does not fail raises exactly one toast without
    [variant], except a load, which raises none. *)
Theorem handlers_catch_and_report_once (user : option User)
  (captured : list Todo.t) (c : Call) (s : State) :
  let r := handler user captured c s in
  fst r = normal tt /\
  if call_fails user c
  then todos (snd r) = todos s /\
       exists t, toasts (snd r) = toasts s ++ [t] /\
                 Toast.variant t = Some destructive
  else if is_fetch c
       then toasts (snd r) = toasts s
       else exists t, toasts (snd r) = toasts s ++ [t] /\
                      Toast.variant t = None.
Proof.
  cbv zeta. each_call c; destruct user as [u|]; simpl;
    (split; [reflexivity|]);
    try reflexivity;
    try (split; [reflexivity|]);
    eexists; split; reflexivity.
Qed.


(** [create] without a user throws before the insert is built: no request
    is issued, the list is untouched, and the one toast raised is the
    destructive "Erro ao adicionar tarefa". *)
Theorem create_without_user_issues_nothing (captured : list Todo.t)
  (title description : jsstring) (reply : PostgrestResponse Todo.t)
  (s : State) :
  let s' := snd (addTodo None captured title description reply s) in
  requests s' = requests s /\
  todos s' = todos s /\
  exists m,
    toasts s' =
      toasts s ++ [{| Toast.title := js "Erro ao adicionar tarefa";
                      Toast.description := m;
                      Toast.variant := Some destructive |}].
Proof.
  cbv zeta. split; [reflexivity|]. split; [reflexivity|].
  eexists; reflexivity.
Qed.

(** A successful [update] keeps the length of the list; at every position
    the task keeps its id, [completed] and creation time; a task with the
    given id gets the given title and the given description as a string,
    and any other task is unchanged. *)
Theorem update_patches_title_and_description_only (user : option User)
  (s : State) (id title description now : jsstring) :
  let s' := perform user s (update id title description now (success tt)) in
  List.length (todos s') = List.length (todos s) /\
  (forall i t, nth_error (todos s) i = Some t ->
     exists t',
       nth_error (todos s') i = Some t' /\
       Todo.id t' = Todo.id t /\
       Todo.completed t' = Todo.completed t /\
       Todo.created_at t' = Todo.created_at t /\
       (Todo.id t = id ->
        Todo.title t' = title /\ Todo.description t' = Some description) /\
       (Todo.id t <> id -> t' = t)).
Proof.
  cbv zeta. unfold perform; simpl. split; [apply length_map|].
  intros i t Hi. rewrite nth_error_map, Hi; simpl.
  destruct (strict_eq_spec (Todo.id t) id) as [E|E].
  - eexists; split; [reflexivity|]. simpl. repeat split; congruence.
  - exists t. repeat split; congruence.
Qed.

(** * How the operations compose *)

(** Of two successful toggles of the same id, one after the other, only
    the second value counts, on every list. And when every task with that
    id has [completed = b], toggling to any value and then back to [b]
    gives the list back exactly. *)
Theorem toggle_last_value_wins_and_undoes (user : option User) (s : State)
  (id now1 now2 : jsstring) :
  (forall c1 c2,
      todos (perform user (perform user s (toggle id c1 now1 (success tt)))
               (toggle id c2 now2 (success tt)))
      = todos (perform user s (toggle id c2 now2 (success tt)))) /\
  (forall b c,
      (forall t, In t (todos s) -> Todo.id t = id -> Todo.completed t = b) ->
      todos (perform user (perform user s (toggle id c now1 (success tt)))
               (toggle id b now2 (success tt)))
      = todos s).
Proof.
  unfold perform; simpl. split.
  - intros c1 c2. rewrite map_map. apply map_ext. intros x.
    destruct (strict_eq (Todo.id x) id) eqn:E; simpl; rewrite E; reflexivity.
  - intros b c Hb. rewrite map_map. rewrite <- (map_id (todos s)) at 2.
    apply map_ext_in. intros x Hx.
    destruct (strict_eq_spec (Todo.id x) id) as [E|E]; simpl.
    + rewrite E, strict_eq_refl. rewrite <- (Hb x Hx E), <- E.
      destruct x; reflexivity.
    + rewrite strict_eq_neq by exact E. reflexivity.
Qed.

Lemma toggle_last_value_wins_and_undoes_witness :
  todos (perform (Some ana)
           (perform (Some ana) two_tasks (toggle (js "7") true noon (success tt)))
           (toggle (js "7") false noon (success tt)))
  = todos two_tasks.
Proof.
  refine (proj2 (@toggle_last_value_wins_and_undoes (Some ana) two_tasks
                   (js "7") noon noon) false true _).
  intros t [<-|[<-|[]]] E; [reflexivity | discriminate E].
Defined.

(** After a successful [delete] no task has the id; deleting again,
    toggling or updating that id leaves the list as the delete left it; and
    the delete button of an item removes the item's own task. *)
Theorem delete_is_final (user : option User) (s : State)
  (id title description now : jsstring) (c : bool) :
  let sd := perform user s (delete id (success tt)) in
  ~ In id (map Todo.id (todos sd)) /\
  todos (perform user sd (delete id (success tt))) = todos sd /\
  todos (perform user sd (toggle id c now (success tt))) = todos sd /\
  todos (perform user sd (update id title description now (success tt)))
  = todos sd /\
  (forall todo item,
      ~ In todo
          (todos (snd (TodoItem.handleDelete
                         (fun id' => deleteTodo (todos s) id' (success tt))
                         todo item s)))).
Proof.
  cbv zeta.
  assert (Habs : ~ In id (map Todo.id
                            (todos (perform user s (delete id (success tt)))))).
  { unfold perform; simpl. intros H.
    apply in_map_iff in H as [x [Hid Hx]].
    apply filter_In in Hx as [_ Hx].
    rewrite Hid, strict_eq_refl in Hx. discriminate. }
  pose proof (id_absent id _ Habs) as Hno.
  split; [exact Habs|].
  split; [|split; [|split]].
  - unfold perform at 1; simpl. apply filter_all. intros x Hx.
    rewrite (Hno x Hx). reflexivity.
  - unfold perform at 1; simpl.
    apply (map_no_match (fun todo => strict_eq (Todo.id todo) id)); exact Hno.
  - unfold perform at 1; simpl.
    apply (map_no_match (fun todo => strict_eq (Todo.id todo) id)); exact Hno.
  - intros todo item H. unfold TodoItem.handleDelete in H; simpl in H.
    apply filter_In in H as [_ H].
    rewrite strict_eq_refl in H. discriminate.
Qed.

(** The last call to settle decides the list. When two calls are issued
    from the same render and then both settle, the list is what the call
    settling last would have made of the list at issue, as if the other call
    had never run, unless that last call does not write the list (it failed),
    in which case the other call's result stays. *)
Theorem last_settled_call_decides_the_list (user : option User) (s : State)
  (c1 c2 : Call) :
  todos (fst (run user (s, []) [issue c1; issue c2; settle 0; settle 0]))
  = (if writes_list user c2 then todos (perform user s c2)
     else todos (perform user s c1)) /\
  todos (fst (run user (s, []) [issue c1; issue c2; settle 1; settle 0]))
  = (if writes_list user c1 then todos (perform user s c1)
     else todos (perform user s c2)).
Proof.
  each_call c1; each_call c2; destruct user as [u|]; split; reflexivity.
Qed.

(** * Invariants of the component *)

Lemma NoDup_map_filter {A B} (g : A -> B) (p : A -> bool) (l : list A) :
  NoDup (map g l) -> NoDup (map g (filter p l)).
Proof.
  induction l as [|x l IH]; simpl; intros H; [constructor|].
  inversion H as [|y l' Hx Hl]; subst.
  destruct (p x); simpl; [|apply IH, Hl].
  constructor; [|apply IH, Hl].
  intros Hin. apply Hx. apply in_map_iff in Hin as [z [Hz Hin]].
  apply in_map_iff. exists z. split; [exact Hz|].
  apply filter_In in Hin; tauto.
Qed.

Lemma handler_unique_ids (user : option User) (captured : list Todo.t)
  (c : Call) (s : State) :
  NoDup (map Todo.id captured) ->
  store_ids_ok captured c ->
  NoDup (map Todo.id (todos s)) ->
  NoDup (map Todo.id (todos (snd (handler user captured c s)))).
Proof.
  intros Hcap Hok Hs.
  each_call c; destruct user as [u|]; simpl in *;
    try exact Hs; try exact Hok; try constructor; try assumption;
    try (apply NoDup_map_filter; exact Hcap);
    (rewrite map_map;
     erewrite map_ext; [exact Hcap|];
     intros x; simpl; destruct (strict_eq (Todo.id x) id); reflexivity).
Qed.

(** Ids stay distinct. Starting from the empty list, after any sequence of
    operations no two tasks of the list have the same id, provided the store
    answers a load with distinct ids and gives each created record an id
    that no task of the list has. *)
Theorem ids_stay_unique (user : option User) (cs : list Call) :
  calls_ids_ok user initial cs ->
  NoDup (map Todo.id (todos (perform_all user initial cs))).
Proof.
  assert (H : forall s, NoDup (map Todo.id (todos s)) ->
                        calls_ids_ok user s cs ->
                        NoDup (map Todo.id (todos (perform_all user s cs)))).
  { induction cs as [|c cs IH]; intros s Hs Hok; simpl in *; [exact Hs|].
    destruct Hok as [Hc Hrest]. apply IH; [|exact Hrest].
    apply handler_unique_ids; assumption. }
  intros Hok. apply H; [constructor | exact Hok].
Qed.

Lemma ids_stay_unique_witness :
  NoDup (map Todo.id (todos (perform_all (Some ana) initial session))).
Proof.
  apply (@ids_stay_unique (Some ana) session).
  simpl. repeat split.
  - repeat constructor. simpl. tauto.
  - simpl. intros [E|[]]. discriminate E.
Defined.

Lemma handler_keeps_loaded (user : option User) (captured : list Todo.t)
  (c : Call) (s : State) :
  loading s = false -> loading (snd (handler user captured c s)) = false.
Proof.
  intros H. each_call c; destruct user as [u|]; simpl; auto.
Qed.

(** The spinner never comes back. Once [loading] is false it stays false
    through every later event, overlapping or not, so the page is rendered
    and never the spinner. *)
Theorem loading_never_returns (user : option User) (es : list Event)
  (m : State * list InFlight) :
  loading (fst m) = false ->
  loading (fst (run user m es)) = false /\
  render (fst (run user m es)) <> spinner.
Proof.
  revert m.
  assert (H : forall m, loading (fst m) = false ->
                        loading (fst (run user m es)) = false).
  { induction es as [|e es IH]; intros m Hm; simpl; [exact Hm|].
    apply IH. destruct e as [c|n]; simpl.
    - destruct (issued user (todos (fst m)) c); simpl;
        [apply handler_keeps_loaded, Hm | exact Hm].
    - destruct (nth_error (snd m) n) as [p|]; simpl; [|exact Hm].
      apply handler_keeps_loaded, Hm. }
  intros m Hm. split; [apply H, Hm|].
  unfold render. rewrite (H m Hm). discriminate.
Qed.

Lemma loading_never_returns_witness :
  loading (fst (run (Some ana) (two_tasks, []) overlapping_toggles)) = false.
Proof.
  exact (proj1 (@loading_never_returns (Some ana) overlapping_toggles
                  (two_tasks, []) eq_refl)).
Defined.

(** * The callers after their call *)

(** [addTodo] never rejects, so the form cannot tell a failed insert from a
    successful one: whenever the typed title is not blank, the form ends
    cleared (empty title, empty description, not loading), also when the
    store answered with an error or no user is signed in. *)
Theorem form_is_cleared_whatever_the_outcome (user : option User) (s : State)
  (f : TodoForm.t) (reply : PostgrestResponse Todo.t) :
  truthy (trim (TodoForm.title f)) = true ->
  fst (TodoForm.handleSubmit
         (fun title description =>
            addTodo user (todos s) title description reply) f s)
  = TodoForm.mount.
Proof.
  intros H. unfold TodoForm.handleSubmit. rewrite H; simpl.
  destruct user as [u|]; [destruct reply as [data|e]|]; reflexivity.
Qed.

Lemma form_is_cleared_whatever_the_outcome_witness :
  fst (TodoForm.handleSubmit
         (fun title description =>
            addTodo (Some ana) (todos two_tasks) title description
              (failure {| message := js "timeout" |}))
         padded_form two_tasks)
  = TodoForm.mount.
Proof.
  exact (@form_is_cleared_whatever_the_outcome (Some ana) two_tasks padded_form
           (failure {| message := js "timeout" |}) eq_refl).
Defined.

(** [updateTodo] never rejects either: whenever the edited title is not
    blank, saving closes the editor and keeps the edited text in its cells,
    also when the store answered with an error. *)
Theorem editor_closes_whatever_the_outcome (s : State) (todo : Todo.t)
  (i : TodoItem.t) (now : jsstring) (reply : PostgrestResponse unit) :
  truthy (trim (TodoItem.editTitle i)) = true ->
  fst (TodoItem.handleSaveEdit
         (fun id title description =>
            updateTodo (todos s) id title description now reply) todo i s)
  = {| TodoItem.isEditing := false;
       TodoItem.editTitle := TodoItem.editTitle i;
       TodoItem.editDescription := TodoItem.editDescription i;
       TodoItem.loading := false |}.
Proof.
  intros H. unfold TodoItem.handleSaveEdit. rewrite H; simpl.
  destruct reply as [[]|e]; reflexivity.
Qed.

Lemma editor_closes_whatever_the_outcome_witness :
  TodoItem.isEditing
    (fst (TodoItem.handleSaveEdit
            (fun id title description =>
               updateTodo (todos two_tasks) id title description noon
                 (failure {| message := js "timeout" |}))
            milk
            {| TodoItem.isEditing := true; TodoItem.editTitle := js "Buy tea";
               TodoItem.editDescription := []; TodoItem.loading := false |}
            two_tasks))
  = false.
Proof.
  exact (f_equal TodoItem.isEditing
           (@editor_closes_whatever_the_outcome two_tasks milk
              {| TodoItem.isEditing := true; TodoItem.editTitle := js "Buy tea";
                 TodoItem.editDescription := []; TodoItem.loading := false |}
              noon (failure {| message := js "timeout" |}) eq_refl)).
Defined.

Lemma or_null_or_empty (d : option jsstring) :
  or_null (or_empty d)
  = match d with
    | Some x => if truthy x then Some x else None
    | None => None
    end.
Proof. destruct d as [[|c x]|]; reflexivity. Qed.

(** With the cells as the item sets them from its task when it mounts, or
    as Cancel resets them from its task, Save sends the task's own title and
    exactly the description the item displays (the stored description, the
    empty string sent as [null]), and it sends nothing at all when the
    task's title is blank. (Cells that hold an edit, such as those a failed
    save leaves behind, are sent as they are.) *)
Theorem editor_round_trip (s : State) (todo : Todo.t) (i : TodoItem.t)
  (now : jsstring) (reply : PostgrestResponse unit) :
  let onUpdate := fun id title description =>
                    updateTodo (todos s) id title description now reply in
  let sent := if forallb is_space (Todo.title todo)
              then []
              else [update_text (Todo.id todo) (Todo.title todo)
                      (description_paragraph todo) now] in
  requests (snd (TodoItem.handleSaveEdit onUpdate todo (TodoItem.mount todo) s))
  = requests s ++ sent /\
  requests (snd (TodoItem.handleSaveEdit onUpdate todo
                   (TodoItem.handleCancelEdit todo i) s))
  = requests s ++ sent /\
  (Todo.description todo <> Some [] ->
   description_paragraph todo = Todo.description todo).
Proof.
  cbv zeta.
  unfold TodoItem.handleSaveEdit, description_paragraph; simpl.
  rewrite blank_title_guard.
  split; [|split].
  - destruct (forallb is_space (Todo.title todo));
      [simpl; rewrite app_nil_r; reflexivity|].
    rewrite <- or_null_or_empty. destruct reply as [[]|e]; reflexivity.
  - destruct (forallb is_space (Todo.title todo));
      [simpl; rewrite app_nil_r; reflexivity|].
    rewrite <- or_null_or_empty. destruct reply as [[]|e]; reflexivity.
  - intros Hne.
    destruct (Todo.description todo) as [[|c x]|]; simpl;
      [exfalso; apply Hne; reflexivity | reflexivity | reflexivity].
Qed.

Lemma editor_round_trip_witness :
  requests
    (snd (TodoItem.handleSaveEdit
            (fun id title description =>
               updateTodo (todos two_tasks) id title description noon (success tt))
            bread (TodoItem.mount bread) two_tasks))
  = [update_text (js "4") (js "Buy bread") (Some (js "rye")) noon].
Proof.
  exact (proj1 (@editor_round_trip two_tasks bread (TodoItem.mount bread) noon
                  (success tt))).
Defined.

(** After a successful [update], every task with the id shows the given
    title, and its description paragraph shows exactly the description that
    was sent to the store: none when the description was empty. *)
Theorem shown_description_is_the_persisted_one (user : option User)
  (s : State) (id title description now : jsstring) :
  let s' := perform user s (update id title description now (success tt)) in
  requests s' = requests s ++ [update_text id title (or_null description) now] /\
  forall t, In t (todos s') -> Todo.id t = id ->
            Todo.title t = title /\
            description_paragraph t = or_null description.
Proof.
  cbv zeta. unfold perform; simpl. split; [reflexivity|].
  intros t Ht Hid. apply in_map_iff in Ht as [x [Hx _]].
  destruct (strict_eq_spec (Todo.id x) id) as [E|E].
  - rewrite <- Hx. split; reflexivity.
  - subst t; contradiction.
Qed.

(** * What is rendered *)

Lemma completedCount_cons (x : Todo.t) (l : list Todo.t) :
  completedCount (x :: l)
  = (if Todo.completed x then 1 else 0) + completedCount l.
Proof. unfold completedCount; simpl. destruct (Todo.completed x); reflexivity. Qed.

Lemma completedCount_le (l : list Todo.t) : completedCount l <= totalCount l.
Proof.
  induction l as [|x l IH]; [apply le_n|].
  rewrite completedCount_cons. unfold totalCount in *; simpl.
  destruct (Todo.completed x); lia.
Qed.

(** The header and the list area never disagree. The spinner is shown
    exactly while [loading]; otherwise either the list is empty and both the
    header and the list area say so, or the header shows the counts of the
    very list whose items are rendered, with no more completed tasks than
    tasks. *)
Theorem header_and_listing_agree (s : State) :
  match render s with
  | spinner => loading s = true
  | page no_tasks_yet nothing_found => loading s = false /\ todos s = []
  | page (counts c n) (items l) =>
      loading s = false /\ l = todos s /\ l <> [] /\
      c = completedCount l /\ n = List.length l /\ c <= n
  | page _ _ => False
  end.
Proof.
  unfold render. destruct (loading s); [reflexivity|].
  destruct (todos s) as [|x l] eqn:E; simpl; [split; reflexivity|].
  repeat split; try discriminate.
  apply (completedCount_le (x :: l)).
Qed.

(** With distinct ids, a successful toggle that changes a task's
    [completed] moves exactly that one task between the counts of the
    header: the total stays and the number of completed tasks changes by
    one. *)
Theorem toggle_moves_one_task_between_counts (user : option User) (s : State)
  (id now : jsstring) (t : Todo.t) (c : bool) :
  NoDup (map Todo.id (todos s)) ->
  In t (todos s) ->
  Todo.id t = id ->
  Todo.completed t = negb c ->
  let s' := perform user s (toggle id c now (success tt)) in
  totalCount (todos s') = totalCount (todos s) /\
  completedCount (todos s') + (if c then 0 else 1)
  = completedCount (todos s) + (if c then 1 else 0).
Proof.
  intros Hnd Hin Hid Hc. cbv zeta. unfold perform; simpl.
  split; [apply length_map|].
  induction (todos s) as [|x l IH]; [destruct Hin|].
  simpl in Hnd. inversion Hnd as [|y l' Hx Hl]; subst y l'.
  simpl map. destruct (strict_eq_spec (Todo.id x) id) as [E|E].
  - assert (Ht : t = x).
    { destruct Hin as [Hin|Hin]; [congruence|]. exfalso. apply Hx.
      rewrite E, <- Hid. apply in_map, Hin. }
    subst t.
    rewrite (map_no_match (fun todo => strict_eq (Todo.id todo) id)).
    + rewrite !completedCount_cons; simpl. rewrite Hc.
      destruct c; simpl; lia.
    + apply id_absent. rewrite <- E. exact Hx.
  - destruct Hin as [Hin|Hin]; [congruence|].
    rewrite !completedCount_cons. specialize (IH Hl Hin). lia.
Qed.

Lemma toggle_moves_one_task_between_counts_witness :
  completedCount
    (todos (perform (Some ana) two_tasks (toggle (js "7") true noon (success tt))))
  + 0
  = completedCount (todos two_tasks) + 1.
Proof.
  refine (proj2 (@toggle_moves_one_task_between_counts (Some ana) two_tasks
                   (js "7") noon milk true _ _ eq_refl eq_refl)).
  - simpl. repeat constructor; simpl; [intros [E|[]]; discriminate E | tauto].
  - left; reflexivity.
Defined.

(** [Index] mounts the list only for a signed-in user, so the list's mount
    effect always issues the load, and once the load has settled, whatever
    the store answered, the list shows its page and not the spinner it
    starts with. *)
Theorem mounted_list_loads_and_leaves_spinner (user : option User)
  (auth_loading : bool) (reply : PostgrestResponse (option (list Todo.t))) :
  Index.render user auth_loading = Index.todo_list ->
  let s' := snd (useEffect_user user reply initial) in
  render initial = spinner /\
  requests s' = [select_todos] /\
  render s' <> spinner.
Proof.
  intros H. cbv zeta. unfold Index.render in H.
  destruct auth_loading; [discriminate H|].
  destruct user as [u|]; [|discriminate H].
  split; [reflexivity|].
  destruct reply as [[rows|]|e]; (split; [reflexivity|]);
    unfold render; simpl; discriminate.
Qed.

Lemma mounted_list_loads_and_leaves_spinner_witness :
  render (snd (useEffect_user (Some ana) (success (Some [bread])) initial))
  <> spinner.
Proof.
  exact (proj2 (proj2 (@mounted_list_loads_and_leaves_spinner (Some ana) false
                         (success (Some [bread])) eq_refl))).
Defined.

(** * Witnesses for the facts on overlapping and successive calls *)

Lemma overlapping_calls_stay_descending_witness :
  store_ok digits_value (Some ana) (initial, []) overlapping_session /\
  descending digits_value
    (todos (fst (run (Some ana) (initial, []) overlapping_session))) /\
  todos (fst (run (Some ana) (initial, []) overlapping_session))
  = [tea; milk; bread].
Proof.
  assert (H : store_ok digits_value (Some ana) (initial, [])
                overlapping_session).
  { simpl. repeat split.
    - constructor; [|constructor]. exists [bread; milk]. reflexivity.
    - repeat constructor. }
  split; [exact H|]. split; [|reflexivity].
  exact (@overlapping_calls_stay_descending digits_value (Some ana)
           overlapping_session H).
Defined.

Lemma successive_patches_commute_witness :
  todos (perform (Some ana)
           (perform (Some ana) two_tasks (toggle (js "7") true noon (success tt)))
           (delete (js "4") (success tt)))
  = todos (perform (Some ana)
             (perform (Some ana) two_tasks (delete (js "4") (success tt)))
             (toggle (js "7") true noon (success tt))).
Proof.
  apply (@successive_patches_commute (Some ana) two_tasks
           (toggle (js "7") true noon (success tt))
           (delete (js "4") (success tt)) (js "7") (js "4")
           eq_refl eq_refl).
  discriminate.
Defined.

(** * The checkbox, clicked twice *)

(** Clicking an item's checkbox, letting the toggle succeed, and clicking
    the checkbox of the re-rendered item again gives the task back exactly
    as it was, at the same position. *)
Theorem double_click_restores_task (s : State) (i : nat) (todo : Todo.t)
  (item : TodoItem.t) (now1 now2 : jsstring) :
  nth_error (todos s) i = Some todo ->
  let s1 :=
    snd (TodoItem.handleToggle
           (fun id completed => toggleTodo (todos s) id completed now1 (success tt))
           todo item s) in
  exists todo1,
    nth_error (todos s1) i = Some todo1 /\
    Todo.completed todo1 = negb (Todo.completed todo) /\
    nth_error
      (todos
         (snd (TodoItem.handleToggle
                 (fun id completed =>
                    toggleTodo (todos s1) id completed now2 (success tt))
                 todo1 item s1))) i
    = Some todo.
Proof.
  intros Hi. cbv zeta. unfold TodoItem.handleToggle; simpl.
  eexists. split; [|split].
  - rewrite toggle_nth, Hi; simpl. rewrite strict_eq_refl. reflexivity.
  - reflexivity.
  - simpl. rewrite !toggle_nth, Hi; simpl.
    repeat (rewrite strict_eq_refl; simpl). rewrite negb_involutive.
    destruct todo; reflexivity.
Qed.

Lemma double_click_restores_task_witness :
  exists todo1,
    nth_error
      (todos
         (snd (TodoItem.handleToggle
                 (fun id completed =>
                    toggleTodo (todos two_tasks) id completed noon (success tt))
                 bread (TodoItem.mount bread) two_tasks))) 1
    = Some todo1 /\
    Todo.completed todo1 = true.
Proof.
  destruct (@double_click_restores_task two_tasks 1 bread
              (TodoItem.mount bread) noon noon eq_refl) as [t [H1 [H2 _]]].
  exists t. split; [exact H1 | exact H2].
Defined.
